(** * A pattern-action Wikipedia chatbot: matcher and dispatcher

    Shallow embedding of [a10.py].  The program reads a query, splits it into
    words, tries the patterns of an ordered pattern-action list one after the
    other and calls the action paired with the first pattern that matches.

    The actions reach Wikipedia through the [wikipedia], [bs4] and [re]
    packages; these are taken as a [World] of oracles, and every call that
    leaves the process is recorded in a trace, so that what a handler was
    asked to look up can be read off the final state.  Python exceptions are
    the [Raise] branch of a result type. *)

From Stdlib Require Import String Ascii List Bool Arith Lia.
Import ListNotations.
Open Scope string_scope.
Open Scope list_scope.

(** ** The matcher *)

Module Matcher.

(** A pattern is a list of words, as in ["when was % born".split()]. *)
Definition Pattern := list string.

(** The wildcard marker of the pattern-action list. *)
Definition is_wildcard (tok : string) : bool := String.eqb tok "%".

(** Modelled from the spec: the backtracking search of section 4.1, step 4,
    part of the absent [match.py].  [taken] is the span consumed so far
    (never empty at the call site), [remaining] what is left of the source,
    [k] the match of the rest of the pattern.  The span grows by one word
    each time the rest of the pattern refuses the remainder. *)
Fixpoint first_span (k : list string -> option (list string))
         (taken remaining : list string) : option (list string) :=
  match k remaining with
  | Some C => Some (taken ++ C)
  | None =>
      match remaining with
      | [] => None
      | w :: ws => first_span k (taken ++ [w]) ws
      end
  end.

(** Modelled from the spec: [match.py], the module [a10.py] imports [match]
    from, is not among the sources.  This follows section 4.1 step by step:
    both empty succeeds with an empty capture; exactly one empty fails; a
    literal must equal the first source word and contributes nothing; a
    wildcard tries the spans of length 1, 2, ... up to the whole remaining
    source and returns the first for which the rest of the pattern matches,
    the span followed by the capture of the rest.  [None] is NO_MATCH. *)
Fixpoint match_ (pattern source : list string) : option (list string) :=
  match pattern with
  | [] =>
      match source with
      | [] => Some []
      | _ :: _ => None
      end
  | tok :: rest =>
      match source with
      | [] => None
      | w :: ws =>
          if is_wildcard tok then first_span (match_ rest) [w] ws
          else if String.eqb tok w then match_ rest ws
          else None
      end
  end.

(** Modelled from the spec: what a successful match means in the words of
    sections 2 and 3, independently of the search.  The source is the pattern
    with every wildcard replaced by a non-empty run of words; the capture is
    the concatenation of those runs in pattern order. *)
Inductive Matches : list string -> list string -> list string -> Prop :=
| Matches_nil : Matches [] [] []
| Matches_literal : forall tok rest ws C,
    is_wildcard tok = false ->
    Matches rest ws C ->
    Matches (tok :: rest) (tok :: ws) C
| Matches_wildcard : forall tok rest span ws C,
    is_wildcard tok = true ->
    span <> [] ->
    Matches rest ws C ->
    Matches (tok :: rest) (span ++ ws) (span ++ C).

(** Modelled from the spec: the tie-break of section 4.1 and of the
    glossary, in the spec's words and independently of the search.  A
    successful match in which every wildcard, wherever it stands in the
    pattern, has taken the shortest non-empty span after which the rest of
    the pattern can still match ([Matches]) what is left of the source. *)
Inductive ShortestMatches : list string -> list string -> list string -> Prop :=
| Shortest_nil : ShortestMatches [] [] []
| Shortest_literal : forall tok rest ws C,
    is_wildcard tok = false ->
    ShortestMatches rest ws C ->
    ShortestMatches (tok :: rest) (tok :: ws) C
| Shortest_wildcard : forall tok rest span ws C,
    is_wildcard tok = true ->
    span <> [] ->
    ShortestMatches rest ws C ->
    (forall span' ws' C',
        span' <> [] -> span' ++ ws' = span ++ ws ->
        length span' < length span -> ~ Matches rest ws' C') ->
    ShortestMatches (tok :: rest) (span ++ ws) (span ++ C).

(** A pattern without wildcard tokens. *)
Definition no_wildcard (pattern : list string) : bool :=
  forallb (fun tok => negb (is_wildcard tok)) pattern.

End Matcher.

(** ** Python values, exceptions and effects *)

Module Py.

(** The exceptions the program raises or lets through.  [LibraryError] stands
    for whatever the [wikipedia] package raises on its own (no network, no
    such page, disambiguation). *)
Inductive exn : Type :=
| KeyboardInterrupt
| EOFError
| AttributeError (msg : string)
| LookupError (msg : string)
| IndexError (msg : string)
| LibraryError (msg : string).

Inductive result (A : Type) : Type :=
| Ret (a : A)
| Raise (e : exn).
Arguments Ret {A} a.
Arguments Raise {A} e.

(** What leaves the process, in the order it happens. *)
Inductive event : Type :=
| Search (title : string)      (* wikipedia.search(title) *)
| Fetch (page : string)        (* WikipediaPage(page).html() *)
| Prompt (text : string)       (* input(text) *)
| Print (line : string).       (* print(line) *)

Definition trace := list event.

(** State and exception monad: a computation extends the trace and either
    returns or raises. *)
Definition M (A : Type) : Type := trace -> result A * trace.

Definition ret {A} (a : A) : M A := fun t => (Ret a, t).
Definition raise {A} (e : exn) : M A := fun t => (Raise e, t).
Definition bind {A B} (m : M A) (f : A -> M B) : M B :=
  fun t =>
    match m t with
    | (Ret a, t') => f a t'
    | (Raise e, t') => (Raise e, t')
    end.
Definition emit (e : event) : M unit := fun t => (Ret tt, t ++ [e]).
Definition lift {A} (r : result A) : M A := fun t => (r, t).

Declare Scope py_scope.
Delimit Scope py_scope with py.
Notation "x <- m ;; k" := (bind m (fun x => k))
  (at level 100, m at next level, right associativity) : py_scope.
Notation "m ;;; k" := (bind m (fun _ => k))
  (at level 100, right associativity) : py_scope.

(** The value an action hands back: the annotation is [List[Any]], and
    [bye_action] is annotated [None]; the dispatcher only tests the value
    for truth. *)
Inductive pyval : Type :=
| PyNone
| PyList (l : list string).

(** [xs[0]] *)
Definition index0 (xs : list string) : M string :=
  match xs with
  | x :: _ => ret x
  | [] => raise (IndexError "list index out of range")
  end.

(** *** The string methods the program calls, on ASCII text *)

Definition nl : string := String "010"%char EmptyString.

(** [str.isspace] on one ASCII character: tab to carriage return, the four
    separators 28..31, and the space. *)
Definition is_space (c : ascii) : bool :=
  let n := nat_of_ascii c in
  (((9 <=? n) && (n <=? 13)) || ((28 <=? n) && (n <=? 32)))%nat.

(** Membership in [string.printable]. *)
Definition printable (c : ascii) : bool :=
  let n := nat_of_ascii c in
  (((32 <=? n) && (n <=? 126)) || ((9 <=? n) && (n <=? 13)))%nat.

Definition lower_char (c : ascii) : ascii :=
  let n := nat_of_ascii c in
  if ((65 <=? n) && (n <=? 90))%nat then ascii_of_nat (n + 32) else c.

Fixpoint map_chars (f : ascii -> ascii) (s : string) : string :=
  match s with
  | EmptyString => EmptyString
  | String c s' => String (f c) (map_chars f s')
  end.

(** [s.lower()] *)
Definition lower (s : string) : string := map_chars lower_char s.

(** [s.replace(old, new)] for a one-character [old]. *)
Fixpoint replace (old : ascii) (new : string) (s : string) : string :=
  match s with
  | EmptyString => EmptyString
  | String c s' =>
      if Ascii.eqb c old then (new ++ replace old new s')%string
      else String c (replace old new s')
  end.

Definition is_empty (s : string) : bool :=
  match s with EmptyString => true | _ => false end.

Fixpoint split_from (word : string) (s : string) : list string :=
  match s with
  | EmptyString => if is_empty word then [] else [word]
  | String c s' =>
      if is_space c then
        if is_empty word then split_from EmptyString s'
        else word :: split_from EmptyString s'
      else split_from (word ++ String c EmptyString)%string s'
  end.

(** [s.split()]: the maximal runs of characters that are not whitespace. *)
Definition split (s : string) : list string := split_from EmptyString s.

Fixpoint lstrip (s : string) : string :=
  match s with
  | EmptyString => EmptyString
  | String c s' => if is_space c then lstrip s' else s
  end.

Fixpoint rstrip (s : string) : string :=
  match s with
  | EmptyString => EmptyString
  | String c s' =>
      match rstrip s' with
      | EmptyString => if is_space c then EmptyString else String c EmptyString
      | r => String c r
      end
  end.

(** [s.strip()] *)
Definition strip (s : string) : string := rstrip (lstrip s).

(** [re.sub(c + "+", c, s)]: every run of the character [c] becomes one. *)
Fixpoint squeeze (c : ascii) (s : string) : string :=
  match s with
  | EmptyString => EmptyString
  | String a s' =>
      match s' with
      | String b _ =>
          if Ascii.eqb a c && Ascii.eqb b c then squeeze c s'
          else String a (squeeze c s')
      | EmptyString => String a EmptyString
      end
  end.

End Py.

(** ** The program *)

Module A10.
Import Matcher Py.
Local Open Scope py_scope.

(** The packages behind the lookups.  Each regular expression of the program
    has exactly one capturing group, and that group takes part in every
    match, so a successful search is represented by the text of its group. *)
Record World : Type := {
  (* wikipedia.search(title): the titles found, or the package's error *)
  wikipedia_search : string -> result (list string);
  (* WikipediaPage(title).html() *)
  WikipediaPage_html : string -> result string;
  (* [r.text for r in BeautifulSoup(html, "html.parser").find_all(class_="infobox")] *)
  infobox_texts : string -> list string;
  (* the first argument tells whether re.DOTALL | re.IGNORECASE is set;
     then the pattern and the text searched *)
  re_search : bool -> string -> string -> option string
}.

Section Lookups.

Variable w : World.

Definition get_page_html (title : string) : M string :=
  emit (Search title) ;;;
  results <- lift (wikipedia_search w title) ;;
  first <- index0 results ;;
  emit (Fetch first) ;;;
  lift (WikipediaPage_html w first).

Definition get_first_infobox_text (html : string) : M string :=
  match infobox_texts w html with
  | [] => raise (LookupError "Page has no infobox")
  | text :: _ => ret text
  end.

Definition clean_text (text : string) : string :=
  let only_ascii := map_chars (fun c => if printable c then c else " "%char) text in
  let no_dup_spaces := squeeze " "%char only_ascii in
  let no_dup_newlines := squeeze "010"%char no_dup_spaces in
  no_dup_newlines.

Definition default_error_text : string :=
  "Page doesn't appear to have the property you're expecting".

Definition get_match (text pattern error_text : string) : M string :=
  match re_search w true pattern text with
  | None => raise (AttributeError error_text)
  | Some m => ret m
  end.

(** The three steps every lookup starts with. *)
Definition infobox_of (title : string) : M string :=
  html <- get_page_html title ;;
  box <- get_first_infobox_text html ;;
  ret (clean_text box).

Definition get_polar_radius (planet_name : string) : M string :=
  infobox_text <- infobox_of planet_name ;;
  let pattern := "(?:Polar radius.*?)(?: ?[\d]+ )?(?P<radius>[\d,.]+)(?:.*?)km" in
  let error_text := "Page infobox has no polar radius information" in
  get_match infobox_text pattern error_text.

Definition get_birth_date (name : string) : M string :=
  infobox_text <- infobox_of name ;;
  let pattern := "(?:Born\D*)(?P<birth>\d{4}-\d{2}-\d{2})" in
  let error_text :=
    "Page infobox has no birth information (at least none in xxxx-xx-xx format)" in
  get_match infobox_text pattern error_text.

Definition get_university_motto (name : string) : M string :=
  infobox_text <- infobox_of name ;;
  let pattern := "English(.*?)(?=Type)" in
  let error_text := "Page infobox has no motto information" in
  get_match infobox_text pattern error_text.

Definition get_artist_genre (name : string) : M string :=
  infobox_text <- infobox_of name ;;
  let pattern := "Genres\n(.*?)(?=\n)" in
  let error_text := "Page infobox has no genre information" in
  get_match infobox_text pattern error_text.

Definition get_painter_movement (painter_name : string) : M string :=
  infobox_text <- infobox_of painter_name ;;
  let pattern := "Movement\s*[:\-]?\s*(?P<movement>[^,]+?)(?=\s*(?:Family|Spouses|Known for|Notable work|Signature|Born|Died|Resting place|Education|Years active|Other names|Occupation|Works|$))" in
  let error_text := "Page infobox has no artistic movement information" in
  match re_search w false pattern infobox_text with
  | Some m => ret (strip m)
  | None => ret error_text
  end.

Definition get_notable_work (painter_name : string) : M string :=
  infobox_text <- infobox_of painter_name ;;
  let pattern := "Notable work.*?([A-Za-z0-9\s,]+(?:\s*\(\d{4}(?:–\d{4})?\))?)\s*(?:painting|sculpture|artwork)?\s*(?:[^\n]*)" in
  let error_text := "Page infobox has no notable work information" in
  get_match infobox_text pattern error_text.

(** *** The actions: each takes the captured words and returns a list of
    answers. *)

Definition Action : Type := list string -> M pyval.

Definition notable_work : Action := fun matches =>
  a <- get_notable_work (String.concat " " matches) ;; ret (PyList [a]).

Definition university_motto : Action := fun matches =>
  m0 <- index0 matches ;; a <- get_university_motto m0 ;; ret (PyList [a]).

Definition painter_movement : Action := fun matches =>
  m0 <- index0 matches ;; a <- get_painter_movement m0 ;; ret (PyList [a]).

Definition artist_genre : Action := fun matches =>
  m0 <- index0 matches ;; a <- get_artist_genre m0 ;; ret (PyList [a]).

Definition birth_date : Action := fun matches =>
  a <- get_birth_date (String.concat " " matches) ;; ret (PyList [a]).

Definition polar_radius : Action := fun matches =>
  m0 <- index0 matches ;; a <- get_polar_radius m0 ;; ret (PyList [a]).

Definition bye_action : Action := fun dummy => raise KeyboardInterrupt.

(** The pattern-action list, in the order of the source. *)
Definition pa_list : list (Pattern * Action) :=
  [ (split "when was % born", birth_date);
    (split "what is the polar radius of %", polar_radius);
    (split "what is the movement of %", painter_movement);
    (split "what genre is %", artist_genre);
    (split "what is the motto of %", university_motto);
    (split "what is one work from %", notable_work);
    (["bye"], bye_action) ].

End Lookups.

(** *** The dispatcher and the query loop *)

Section Dispatch.

(** The function bound to the name [match] by [from match import match]. *)
Variable matcher : Pattern -> list string -> option (list string).

(** [answer if answer else ["No answers"]]: [None] and the empty list are
    the falsy values. *)
Definition or_no_answers (answer : pyval) : list string :=
  match answer with
  | PyList (a :: l) => a :: l
  | PyList [] | PyNone => ["No answers"]
  end.

(** The global [pa_list] is the argument [registry]. *)
Fixpoint search_pa_list (registry : list (Pattern * Action))
         (src : list string) : M (list string) :=
  match registry with
  | [] => ret ["I don't understand"]
  | (pat, act) :: later =>
      match matcher pat src with
      | Some mat => answer <- act mat ;; ret (or_no_answers answer)
      | None => search_pa_list later src
      end
  end.

(** The body of [while True], once per line of input; [inputs] is what the
    terminal still holds, and [input] raises [EOFError] when it is empty.
    [None] is the [break]; [Some e] an exception the [except] clause does not
    name, which leaves the loop and the function. *)
Fixpoint query_turns (registry : list (Pattern * Action))
         (inputs : list string) (t : trace) : option exn * trace :=
  let t := t ++ [Print ""; Prompt "Your query? "] in
  match inputs with
  | [] => (None, t)
  | line :: more =>
      let query := split (lower (replace "?"%char "" line)) in
      match search_pa_list registry query t with
      | (Ret answers, t') => query_turns registry more (t' ++ map Print answers)
      | (Raise KeyboardInterrupt, t') | (Raise EOFError, t') => (None, t')
      | (Raise e, t') => (Some e, t')
      end
  end.

Definition query_loop (registry : list (Pattern * Action))
           (inputs : list string) : M unit := fun t =>
  let t := t ++ [Print ("Welcome to the Wikipedia chatbot!" ++ nl)%string] in
  match query_turns registry inputs t with
  | (None, t') => (Ret tt, t' ++ [Print (nl ++ "So long!" ++ nl)%string])
  | (Some e, t') => (Raise e, t')
  end.

End Dispatch.

End A10.

(** ** Two worlds to run the program in *)

Module Scenarios.
Import Py A10.

(** Every title searched is found under its own name, the page and its
    infobox consist of that name, and every regular expression captures the
    whole text: the answer of a lookup is the title it was asked about. *)
Definition echo_world : World := {|
  wikipedia_search := fun title => Ret [title];
  WikipediaPage_html := fun page => Ret page;
  infobox_texts := fun html => [html];
  re_search := fun _ _ text => Some text
|}.

(** Every page is found and has an infobox, but no infobox holds the fact
    asked for: no regular expression matches. *)
Definition bare_world : World := {|
  wikipedia_search := fun title => Ret [title];
  WikipediaPage_html := fun page => Ret page;
  infobox_texts := fun html => [html];
  re_search := fun _ _ _ => None
|}.

(** An action that only leaves its name on the trace and answers with it. *)
Definition named (name : string) : Action := fun _ =>
  (emit (Print name) ;;; ret (PyList [name]))%py.

(** An action with nothing to say. *)
Definition silent : Action := fun _ => ret (PyList []).

End Scenarios.

(** ** Predicates on text, to state what the string functions guarantee *)

Module Text.
Import Py.

(** Every character of [s] satisfies [p]. *)
Fixpoint all_chars (p : ascii -> bool) (s : string) : bool :=
  match s with
  | EmptyString => true
  | String c s' => p c && all_chars p s'
  end.

(** The character [c] never occurs twice in a row in [s]. *)
Fixpoint no_run (c : ascii) (s : string) : bool :=
  match s with
  | EmptyString => true
  | String a s' =>
      match s' with
      | EmptyString => true
      | String b _ => negb (Ascii.eqb a c && Ascii.eqb b c) && no_run c s'
      end
  end.

(** An ASCII capital letter, the characters [lower] changes. *)
Definition is_upper (c : ascii) : bool :=
  let n := nat_of_ascii c in ((65 <=? n) && (n <=? 90))%nat.

(** What a word of a query may not contain. *)
Definition query_char (c : ascii) : bool :=
  negb (Ascii.eqb c "?"%char) && negb (is_upper c) && negb (is_space c).

Definition not_space (c : ascii) : bool := negb (is_space c).

Definition starts_with_space (s : string) : bool :=
  match s with
  | EmptyString => false
  | String c _ => is_space c
  end.

Fixpoint ends_with_space (s : string) : bool :=
  match s with
  | EmptyString => false
  | String c s' =>
      match s' with
      | EmptyString => is_space c
      | String _ _ => ends_with_space s'
      end
  end.

(** The words of a line of input, as [query_loop] computes them. *)
Definition query_words (line : string) : list string :=
  split (lower (replace "?"%char "" line)).

End Text.

(** ** What one turn may ask of Wikipedia, and how it may fail *)

Module Turn.
Import Py A10.

(** The requests of one turn, read off the trace before and after it:
    none; one search that found nothing or failed; or one search followed
    by the fetch of the first title found. *)
Inductive requests (w : World) (t : trace) : trace -> Prop :=
| requests_none : requests w t t
| requests_search : forall title,
    wikipedia_search w title = Ret [] \/
    (exists e, wikipedia_search w title = Raise e) ->
    requests w t (t ++ [Search title])
| requests_fetch : forall title page others,
    wikipedia_search w title = Ret (page :: others) ->
    requests w t (t ++ [Search title; Fetch page]).

(** The error texts of the lookups that go through [get_match]. *)
Definition lookup_error_texts : list string :=
  [ "Page infobox has no polar radius information";
    "Page infobox has no birth information (at least none in xxxx-xx-xx format)";
    "Page infobox has no motto information";
    "Page infobox has no genre information";
    "Page infobox has no notable work information" ].

(** The exceptions with which a turn over [pa_list] may end. *)
Inductive turn_error (w : World) : exn -> Prop :=
| error_bye : turn_error w KeyboardInterrupt
| error_index : turn_error w (IndexError "list index out of range")
| error_infobox : turn_error w (LookupError "Page has no infobox")
| error_fact : forall msg,
    In msg lookup_error_texts -> turn_error w (AttributeError msg)
| error_search : forall title e,
    wikipedia_search w title = Raise e -> turn_error w e
| error_page : forall page e,
    WikipediaPage_html w page = Raise e -> turn_error w e.

(** A computation that leaves the trace as it found it. *)
Definition quiet {A} (m : M A) : Prop := forall t, snd (m t) = t.

End Turn.

(** * Properties of the matcher *)

Module MatcherFacts.
Import Matcher.

Example match_born :
  match_ ["when"; "was"; "%"; "born"] ["when"; "was"; "ada"; "lovelace"; "born"]
  = Some ["ada"; "lovelace"].
Proof. reflexivity. Qed.

Example match_two_wildcards :
  match_ ["%"; "%"] ["a"; "b"; "c"] = Some ["a"; "b"; "c"].
Proof. reflexivity. Qed.

Example match_backtracks :
  match_ ["%"; "b"; "c"] ["a"; "b"; "b"; "c"] = Some ["a"; "b"].
Proof. reflexivity. Qed.

Example match_literal_mismatch :
  match_ ["bye"] ["goodbye"] = None.
Proof. reflexivity. Qed.

(** What [first_span] returns is the shortest prefix of the remainder after
    which [k] accepts. *)
Lemma first_span_some k : forall remaining taken cap,
  first_span k taken remaining = Some cap ->
  exists pre post C,
    remaining = pre ++ post /\ k post = Some C /\ cap = taken ++ pre ++ C /\
    forall pre' post', remaining = pre' ++ post' ->
                       length pre' < length pre -> k post' = None.
Proof.
  induction remaining as [|w ws IH]; intros taken cap H; simpl in H.
  - destruct (k []) as [C|] eqn:E; [|discriminate].
    injection H as <-. exists [], [], C. repeat split; auto.
    simpl. intros ? ? _ Hlt. lia.
  - destruct (k (w :: ws)) as [C|] eqn:E.
    + injection H as <-. exists [], (w :: ws), C. repeat split; auto.
      simpl. intros ? ? _ Hlt. lia.
    + apply IH in H as (pre & post & C & -> & Hk & -> & Hmin).
      exists (w :: pre), post, C. repeat split; auto.
      * now rewrite <- app_assoc.
      * intros [|x pre'] post' Heq Hlt; simpl in *.
        -- now subst post'.
        -- injection Heq as _ Heq. apply (Hmin pre'); [assumption | lia].
Qed.

(** The search finds a span whenever there is one. *)
Lemma first_span_finds k : forall pre post taken C,
  k post = Some C -> first_span k taken (pre ++ post) <> None.
Proof.
  induction pre as [|x pre IH]; intros post taken C Hk.
  - simpl. destruct post; simpl; rewrite Hk; discriminate.
  - simpl. destruct (k (x :: pre ++ post)); [discriminate|].
    now apply IH with (C := C).
Qed.

Lemma match_sound : forall pattern source C,
  match_ pattern source = Some C -> Matches pattern source C.
Proof.
  induction pattern as [|tok rest IH]; intros [|w ws] C H; simpl in H;
    try discriminate.
  - injection H as <-. constructor.
  - destruct (is_wildcard tok) eqn:Ew.
    + apply first_span_some in H as (pre & post & C' & -> & Hk & -> & _).
      change (Matches (tok :: rest) ((w :: pre) ++ post) ((w :: pre) ++ C')).
      apply Matches_wildcard; [assumption | discriminate | now apply IH].
    + destruct (String.eqb tok w) eqn:Eq; [|discriminate].
      apply String.eqb_eq in Eq as <-.
      apply Matches_literal; [assumption | now apply IH].
Qed.

Lemma match_complete : forall pattern source C,
  Matches pattern source C -> match_ pattern source <> None.
Proof.
  intros pattern source C H.
  induction H as [| tok rest ws C Hw _ IH | tok rest span ws C Hw Hne _ IH].
  - discriminate.
  - simpl. rewrite Hw, String.eqb_refl. exact IH.
  - destruct span as [|w pre]; [contradiction|]. simpl. rewrite Hw.
    destruct (match_ rest ws) as [C'|] eqn:E; [|contradiction].
    now apply first_span_finds with (C := C').
Qed.

Lemma Matches_length : forall pattern source C,
  Matches pattern source C -> length pattern <= length source.
Proof.
  induction 1 as [| | tok rest span ws C _ Hne _ IH]; simpl; try lia.
  rewrite length_app. destruct span; [contradiction|]. simpl. lia.
Qed.

Lemma match_literals : forall pattern source C,
  no_wildcard pattern = true ->
  match_ pattern source = Some C <-> pattern = source /\ C = [].
Proof.
  induction pattern as [|tok rest IH]; intros [|w ws] C Hnw; simpl.
  - split; [intros [= <-]; auto | intros [_ ->]; reflexivity].
  - split; [discriminate | intros [[=] _]].
  - split; [discriminate | intros [[=] _]].
  - simpl in Hnw. apply andb_prop in Hnw as [Hw Hnw].
    apply negb_true_iff in Hw. rewrite Hw.
    destruct (String.eqb_spec tok w) as [->|Hne].
    + rewrite (IH ws C Hnw). split.
      * intros [-> ->]. auto.
      * intros [[= ->] ->]. auto.
    + split; [discriminate | intros [[= E _] _]; contradiction].
Qed.

(** C7. A pattern without wildcard tokens matches a source exactly when the
    two are the same list of words, and the capture of such a match is
    empty. *)
Theorem match_without_wildcards (pattern source : list string) :
  no_wildcard pattern = true ->
  (match_ pattern source <> None <-> pattern = source) /\
  (forall C, match_ pattern source = Some C -> C = []).
Proof.
  intros Hnw. split; [split|].
  - destruct (match_ pattern source) as [C|] eqn:E; [|contradiction].
    intros _. now apply (match_literals pattern source C Hnw) in E.
  - intros Heq.
    assert (E : match_ pattern source = Some [])
      by now apply (match_literals pattern source [] Hnw).
    rewrite E. discriminate.
  - intros C E. now apply (match_literals pattern source C Hnw) in E.
Qed.

Lemma match_without_wildcards_witness :
  no_wildcard ["what"; "is"; "up"] = true /\
  ((match_ ["what"; "is"; "up"] ["what"; "is"; "up"] <> None <->
    ["what"; "is"; "up"] = ["what"; "is"; "up"]) /\
   (forall C, match_ ["what"; "is"; "up"] ["what"; "is"; "up"] = Some C ->
              C = [])).
Proof.
  split; [reflexivity|].
  apply (match_without_wildcards ["what"; "is"; "up"] ["what"; "is"; "up"]).
  reflexivity.
Defined.

(** When the rest of the pattern accepts after [pre] and after no shorter
    prefix, the search stops exactly there. *)
Lemma first_span_exact k : forall pre taken post C,
  k post = Some C ->
  (forall pre' post', pre ++ post = pre' ++ post' ->
                      length pre' < length pre -> k post' = None) ->
  first_span k taken (pre ++ post) = Some (taken ++ pre ++ C).
Proof.
  induction pre as [|x pre IH]; intros taken post C Hk Hmin.
  - simpl. destruct post; simpl; now rewrite Hk.
  - simpl. rewrite (Hmin [] (x :: pre ++ post) eq_refl) by (simpl; lia).
    rewrite (IH (taken ++ [x]) post C Hk).
    + now rewrite <- app_assoc.
    + intros pre' post' Heq Hlt. apply (Hmin (x :: pre')); simpl;
        [now rewrite Heq | lia].
Qed.

Lemma match_shortest : forall pattern source C,
  match_ pattern source = Some C -> ShortestMatches pattern source C.
Proof.
  induction pattern as [|tok rest IH]; intros [|w ws] C H; simpl in H;
    try discriminate.
  - injection H as <-. constructor.
  - destruct (is_wildcard tok) eqn:Ew.
    + apply first_span_some in H as (pre & post & C' & -> & Hk & -> & Hmin).
      change (ShortestMatches (tok :: rest) ((w :: pre) ++ post)
                              ((w :: pre) ++ C')).
      apply Shortest_wildcard;
        [assumption | discriminate | now apply IH |].
      intros [|x span'] ws' C'' Hne Heq Hlt HM; [contradiction|].
      simpl in Heq, Hlt. injection Heq as _ Heq.
      apply match_complete in HM. apply HM.
      apply (Hmin span' ws'); [now rewrite Heq | lia].
    + destruct (String.eqb tok w) eqn:Eq; [|discriminate].
      apply String.eqb_eq in Eq as <-.
      apply Shortest_literal; [assumption | now apply IH].
Qed.

Lemma shortest_match : forall pattern source C,
  ShortestMatches pattern source C -> match_ pattern source = Some C.
Proof.
  intros pattern source C H.
  induction H as [| tok rest ws C Hw _ IH
                  | tok rest span ws C Hw Hne _ IH Hmin].
  - reflexivity.
  - simpl. now rewrite Hw, String.eqb_refl.
  - destruct span as [|w pre]; [contradiction|]. simpl. rewrite Hw.
    apply (first_span_exact (match_ rest) pre [w] ws C IH).
    intros pre' post' Heq Hlt.
    destruct (match_ rest post') as [C'|] eqn:E; [|reflexivity].
    exfalso. apply match_sound in E.
    apply (Hmin (w :: pre') post' C'); simpl;
      [discriminate | now rewrite Heq | lia | assumption].
Qed.

(** C8. Shortest span first: on the pattern [% b] and the source [b b] the
    wildcard captures the first [b] alone.  In general the match is the
    shortest-first one: [match_] succeeds with a capture exactly when every
    wildcard of the pattern, at whatever position, has taken the shortest
    non-empty span after which the rest of the pattern can still match
    ([ShortestMatches]).  In particular, whenever a pattern that starts
    with a wildcard matches, the wildcard has taken a non-empty span after
    which the rest of the pattern matches, and no shorter non-empty span
    would have let the rest of the pattern match. *)
Theorem shortest_span_first :
  match_ ["%"; "b"] ["b"; "b"] = Some ["b"] /\
  (forall tok rest source cap,
    is_wildcard tok = true ->
    match_ (tok :: rest) source = Some cap ->
    exists span remainder C,
      span <> [] /\ source = span ++ remainder /\
      match_ rest remainder = Some C /\ cap = span ++ C /\
      forall span' remainder',
        span' <> [] -> source = span' ++ remainder' ->
        length span' < length span -> match_ rest remainder' = None) /\
  (forall pattern source cap,
    match_ pattern source = Some cap <-> ShortestMatches pattern source cap).
Proof.
  split; [reflexivity|]. split.
  - intros tok rest [|w ws] cap Hw H; simpl in H; [discriminate|].
    rewrite Hw in H.
    apply first_span_some in H as (pre & post & C & -> & Hk & -> & Hmin).
    exists (w :: pre), post, C. repeat split; auto; [discriminate|].
    intros [|x span'] remainder' Hne Heq Hlt; [contradiction|].
    simpl in *. injection Heq as _ Heq.
    apply (Hmin span'); [assumption | lia].
  - intros pattern source cap. split;
      [apply match_shortest | apply shortest_match].
Qed.

Lemma shortest_span_first_witness :
  (exists span remainder C,
    span <> [] /\ ["x"; "b"; "y"; "b"; "z"] = span ++ remainder /\
    match_ ["b"; "%"] remainder = Some C /\ ["x"; "y"; "b"; "z"] = span ++ C /\
    forall span' remainder',
      span' <> [] -> ["x"; "b"; "y"; "b"; "z"] = span' ++ remainder' ->
      length span' < length span -> match_ ["b"; "%"] remainder' = None) /\
  ShortestMatches ["a"; "%"; "b"; "%"] ["a"; "x"; "b"; "y"; "b"; "z"]
                  ["x"; "y"; "b"; "z"] /\
  ~ ShortestMatches ["a"; "%"; "b"; "%"] ["a"; "x"; "b"; "y"; "b"; "z"]
                    ["x"; "b"; "y"; "z"].
Proof.
  split; [|split].
  - apply (proj1 (proj2 shortest_span_first)
             "%" ["b"; "%"] ["x"; "b"; "y"; "b"; "z"]); reflexivity.
  - apply (proj1 (proj2 (proj2 shortest_span_first)
                    ["a"; "%"; "b"; "%"] ["a"; "x"; "b"; "y"; "b"; "z"]
                    ["x"; "y"; "b"; "z"])).
    reflexivity.
  - intros H.
    apply (proj2 (proj2 (proj2 shortest_span_first)
                    ["a"; "%"; "b"; "%"] ["a"; "x"; "b"; "y"; "b"; "z"]
                    ["x"; "b"; "y"; "z"])) in H.
    discriminate H.
Defined.

(** The capture the witness excludes is a valid match of the same pattern
    and source: the longer span of the wildcard behind the literal. *)
Example longer_span_also_matches :
  Matches ["a"; "%"; "b"; "%"] ["a"; "x"; "b"; "y"; "b"; "z"]
          ["x"; "b"; "y"; "z"].
Proof.
  apply Matches_literal; [reflexivity|].
  apply (Matches_wildcard "%" ["b"; "%"] ["x"; "b"; "y"] ["b"; "z"] ["z"]);
    [reflexivity | discriminate |].
  apply Matches_literal; [reflexivity|].
  apply (Matches_wildcard "%" [] ["z"] [] []);
    [reflexivity | discriminate | constructor].
Qed.

(** C9. In a successful match every token has consumed at least one source
    word and every wildcard a non-empty contiguous run: the source is the
    pattern with each wildcard replaced by a non-empty run and the capture is
    those runs in order ([Matches]), so the source is at least as long as
    the pattern.  Hence a match of an empty pattern with a non-empty source,
    or of a non-empty pattern with an empty source, fails. *)
Theorem wildcard_consumes_words (pattern source : list string) :
  (forall C, match_ pattern source = Some C ->
             Matches pattern source C /\ length pattern <= length source) /\
  ((pattern = [] /\ source <> []) \/ (pattern <> [] /\ source = []) ->
   match_ pattern source = None).
Proof.
  split.
  - intros C H. apply match_sound in H. split; [assumption|].
    now apply Matches_length with (C := C).
  - intros [[-> Hs] | [Hp ->]].
    + destruct source; [contradiction | reflexivity].
    + destruct pattern; [contradiction | reflexivity].
Qed.

Lemma wildcard_consumes_words_witness :
  (Matches ["when"; "was"; "%"; "born"]
           ["when"; "was"; "ada"; "lovelace"; "born"] ["ada"; "lovelace"] /\
   length ["when"; "was"; "%"; "born"]
   <= length ["when"; "was"; "ada"; "lovelace"; "born"]) /\
  match_ ["%"] [] = None.
Proof.
  split.
  - apply (proj1 (wildcard_consumes_words
                    ["when"; "was"; "%"; "born"]
                    ["when"; "was"; "ada"; "lovelace"; "born"])).
    reflexivity.
  - apply (proj2 (wildcard_consumes_words ["%"] [])).
    right. split; [discriminate | reflexivity].
Defined.

End MatcherFacts.

(** * Properties of the dispatcher and of the actions *)

Module DispatchFacts.
Import Matcher Py A10 Scenarios.
Local Open Scope py_scope.

Section AnyMatcher.

Variable matcher : Pattern -> list string -> option (list string).

(** Entries whose pattern does not match are passed over. *)
Lemma search_skip (src : list string) : forall pre later,
  (forall pat act, In (pat, act) pre -> matcher pat src = None) ->
  search_pa_list matcher (pre ++ later) src = search_pa_list matcher later src.
Proof.
  induction pre as [|[p a] pre IH]; intros later Hpre; [reflexivity|].
  simpl. rewrite (Hpre p a (or_introl eq_refl)).
  apply IH. intros pat act Hin. apply (Hpre pat act). now right.
Qed.

(** The first entry whose pattern matches decides the turn. *)
Lemma search_hit (src : list string) pat (act : Action) later mat :
  matcher pat src = Some mat ->
  search_pa_list matcher ((pat, act) :: later) src
  = (answer <- act mat ;; ret (or_no_answers answer)).
Proof. intros H. simpl. now rewrite H. Qed.

Lemma or_no_answers_nonempty (answer : pyval) : or_no_answers answer <> [].
Proof. destruct answer as [|[|a l]]; discriminate. Qed.

Lemma search_nonempty (src : list string) : forall registry t l t',
  search_pa_list matcher registry src t = (Ret l, t') -> l <> [].
Proof.
  induction registry as [|[p a] registry IH]; intros t l t' H; simpl in H.
  - injection H as <- _. discriminate.
  - destruct (matcher p src) as [mat|]; [|now apply IH in H].
    unfold bind in H. destruct (a mat t) as [[answer|e] t1]; [|discriminate].
    injection H as <- _. apply or_no_answers_nonempty.
Qed.

(** C1. When the pattern of an entry matches the source and no pattern
    registered before it does, the turn is the call of that entry's action
    on the capture and nothing else, whatever is registered after it (other
    matching entries included): the later entries change neither the answer
    nor the trace, so no later action is called. *)
Theorem first_match_wins (src : list string) pre pat (act : Action) later mat :
  (forall p a, In (p, a) pre -> matcher p src = None) ->
  matcher pat src = Some mat ->
  search_pa_list matcher (pre ++ (pat, act) :: later) src
  = (answer <- act mat ;; ret (or_no_answers answer)) /\
  search_pa_list matcher (pre ++ (pat, act) :: later) src
  = search_pa_list matcher (pre ++ [(pat, act)]) src.
Proof.
  intros Hpre Hmat.
  rewrite !(search_skip src pre _ Hpre).
  rewrite (search_hit src pat act later mat Hmat).
  rewrite (search_hit src pat act [] mat Hmat). split; reflexivity.
Qed.

(** C4. When no registered pattern matches the source, the answer is the
    one-element list "I don't understand" and the trace is left as it was:
    no action has run. *)
Theorem no_match_not_understood (src : list string) registry :
  (forall pat act, In (pat, act) registry -> matcher pat src = None) ->
  forall t, search_pa_list matcher registry src t
            = (Ret ["I don't understand"], t).
Proof.
  intros Hnone t.
  rewrite <- (app_nil_r registry).
  now rewrite (search_skip src registry [] Hnone).
Qed.

(** C5. When the action of the first matching entry returns the empty list,
    the dispatcher answers with the one-element list "No answers". *)
Theorem empty_answer_replaced (src : list string) pre pat (act : Action)
        later mat t t' :
  (forall p a, In (p, a) pre -> matcher p src = None) ->
  matcher pat src = Some mat ->
  act mat t = (Ret (PyList []), t') ->
  search_pa_list matcher (pre ++ (pat, act) :: later) src t
  = (Ret ["No answers"], t').
Proof.
  intros Hpre Hmat Hact.
  rewrite (search_skip src pre _ Hpre), (search_hit src pat act later mat Hmat).
  unfold bind. now rewrite Hact.
Qed.

(** If every registered action that returns hands back a one-element list,
    so does the dispatcher. *)
Lemma search_single (src : list string) : forall registry,
  (forall pat (act : Action), In (pat, act) registry ->
     forall mat t v t', act mat t = (Ret v, t') -> exists a, v = PyList [a]) ->
  forall t l t', search_pa_list matcher registry src t = (Ret l, t') ->
                 exists a, l = [a].
Proof.
  induction registry as [|[p a] registry IH]; intros Hone t l t' H; simpl in H.
  - injection H as <- _. eauto.
  - destruct (matcher p src) as [mat|].
    + unfold bind in H. destruct (a mat t) as [[answer|e] t1] eqn:E;
        [|discriminate].
      destruct (Hone p a (or_introl eq_refl) mat t answer t1 E) as [x ->].
      injection H as <- _. simpl. eauto.
    + apply IH in H; [assumption|].
      intros pat act Hin. apply (Hone pat act). now right.
Qed.

End AnyMatcher.


Lemma first_match_wins_witness :
  search_pa_list match_
    ([(["bye"], named "never")]
       ++ (["what"; "is"; "%"], named "first") :: [(["what"; "%"], named "second")])
    ["what"; "is"; "up"]
  = (answer <- named "first" ["up"] ;; ret (or_no_answers answer)) /\
  search_pa_list match_
    ([(["bye"], named "never")]
       ++ (["what"; "is"; "%"], named "first") :: [(["what"; "%"], named "second")])
    ["what"; "is"; "up"]
  = search_pa_list match_
      ([(["bye"], named "never")] ++ [(["what"; "is"; "%"], named "first")])
      ["what"; "is"; "up"].
Proof.
  apply (first_match_wins match_ ["what"; "is"; "up"]
           [(["bye"], named "never")] ["what"; "is"; "%"] (named "first")
           [(["what"; "%"], named "second")] ["up"]).
  - intros p a [[= <- <-] | []]. reflexivity.
  - reflexivity.
Defined.

(** Both patterns of the registry above match [what is up]; only the action
    registered first leaves its mark. *)
Example two_matching_entries :
  match_ ["what"; "is"; "%"] ["what"; "is"; "up"] = Some ["up"] /\
  match_ ["what"; "%"] ["what"; "is"; "up"] = Some ["is"; "up"] /\
  search_pa_list match_
    [(["bye"], named "never"); (["what"; "is"; "%"], named "first");
     (["what"; "%"], named "second")] ["what"; "is"; "up"] []
  = (Ret ["first"], [Print "first"]).
Proof. repeat split. Qed.

Lemma no_match_not_understood_witness :
  search_pa_list match_ [(["bye"], named "never"); (["what"; "%"], named "second")]
                 ["goodbye"] [Print "before"]
  = (Ret ["I don't understand"], [Print "before"]).
Proof.
  apply (no_match_not_understood match_ ["goodbye"]
           [(["bye"], named "never"); (["what"; "%"], named "second")]).
  intros pat act [[= <- <-] | [[= <- <-] | []]]; reflexivity.
Defined.

Lemma empty_answer_replaced_witness :
  search_pa_list match_
    ([(["bye"], named "never")] ++ (["what"; "%"], silent) :: [(["%"], named "last")])
    ["what"; "now"] []
  = (Ret ["No answers"], []).
Proof.
  apply (empty_answer_replaced match_ ["what"; "now"] [(["bye"], named "never")]
           ["what"; "%"] silent [(["%"], named "last")] ["now"] [] []).
  - intros p a [[= <- <-] | []]. reflexivity.
  - reflexivity.
  - reflexivity.
Defined.

(** Case analysis on the computations a monadic equation runs through. *)
Ltac run_py H :=
  unfold bind, ret, raise in H;
  repeat match type of H with
         | context [match ?c with _ => _ end] =>
             let E := fresh "E" in destruct c as [[?|?] ?] eqn:E
         end;
  try discriminate.

(** Every action of the pattern-action list that returns, returns a list of
    one answer; [bye_action] never returns. *)
Lemma registered_single (w : World) pat (act : Action) :
  In (pat, act) (pa_list w) ->
  forall mat t v t', act mat t = (Ret v, t') -> exists a, v = PyList [a].
Proof.
  intros Hin mat t v t' H. unfold pa_list in Hin.
  repeat (destruct Hin as [[= _ <-] | Hin]); try contradiction.
  - unfold birth_date in H. run_py H. injection H as <- _. eauto.
  - unfold polar_radius, index0 in H. destruct mat; run_py H.
    injection H as <- _. eauto.
  - unfold painter_movement, index0 in H. destruct mat; run_py H.
    injection H as <- _. eauto.
  - unfold artist_genre, index0 in H. destruct mat; run_py H.
    injection H as <- _. eauto.
  - unfold university_motto, index0 in H. destruct mat; run_py H.
    injection H as <- _. eauto.
  - unfold notable_work in H. run_py H. injection H as <- _. eauto.
  - unfold bye_action in H. run_py H.
Qed.

(** C10. Whenever [search_pa_list] returns, it returns a non-empty list:
    whatever the registry and the matcher, an empty or [None] answer has been
    replaced by "No answers" and a source nothing matches is answered by
    "I don't understand".  Every action registered in [pa_list] that returns,
    returns a one-element list, and so does the dispatcher over [pa_list]. *)
Theorem search_answers_nonempty :
  (forall matcher registry src t l t',
      search_pa_list matcher registry src t = (Ret l, t') -> l <> []) /\
  (forall w pat (act : Action) mat t v t',
      In (pat, act) (pa_list w) -> act mat t = (Ret v, t') ->
      exists a, v = PyList [a]) /\
  (forall matcher w src t l t',
      search_pa_list matcher (pa_list w) src t = (Ret l, t') ->
      exists a, l = [a]).
Proof.
  split; [|split].
  - intros matcher registry src t l t'. apply search_nonempty.
  - intros w pat act mat t v t' Hin. apply (registered_single w pat act Hin).
  - intros matcher w src. apply search_single.
    intros pat act. apply registered_single.
Qed.

Lemma search_answers_nonempty_witness :
  search_pa_list match_ (pa_list echo_world)
                 ["when"; "was"; "ada"; "lovelace"; "born"] []
  = (Ret ["ada lovelace"], [Search "ada lovelace"; Fetch "ada lovelace"]) /\
  ["ada lovelace"] <> [] /\ exists a, ["ada lovelace"] = [a].
Proof.
  split; [reflexivity | split].
  - apply (proj1 search_answers_nonempty match_ (pa_list echo_world)
             ["when"; "was"; "ada"; "lovelace"; "born"] []
             ["ada lovelace"] [Search "ada lovelace"; Fetch "ada lovelace"]).
    reflexivity.
  - apply (proj2 (proj2 search_answers_nonempty) match_ echo_world
             ["when"; "was"; "ada"; "lovelace"; "born"] []
             ["ada lovelace"] [Search "ada lovelace"; Fetch "ada lovelace"]).
    reflexivity.
Defined.

(** A falsy answer of either kind is replaced. *)
Example falsy_answers_replaced :
  or_no_answers PyNone = ["No answers"] /\
  or_no_answers (PyList []) = ["No answers"] /\
  or_no_answers (PyList ["a"; "b"]) = ["a"; "b"].
Proof. repeat split. Qed.

(** A search that finds nothing makes [get_match] raise. *)
Lemma get_match_raises (w : World) text pattern error_text t :
  re_search w true pattern text = None ->
  get_match w text pattern error_text t = (Raise (AttributeError error_text), t).
Proof. intros H. unfold get_match. now rewrite H. Qed.

(** C2. A lookup that fails is not turned into an answer: where the infobox
    holds no birth date, [get_match] raises [AttributeError], [birth_date]
    and [search_pa_list] let it through, and [query_loop], which catches
    [KeyboardInterrupt] and [EOFError] only, ends with that exception
    without reading any of the lines still waiting ([more]) and without its
    farewell. *)
Theorem failed_lookup_ends_conversation (more : list string) :
  search_pa_list match_ (pa_list bare_world)
                 ["when"; "was"; "ada"; "lovelace"; "born"] []
  = (Raise (AttributeError
      "Page infobox has no birth information (at least none in xxxx-xx-xx format)"),
     [Search "ada lovelace"; Fetch "ada lovelace"]) /\
  query_loop match_ (pa_list bare_world) ("When was Ada Lovelace born?" :: more) []
  = (Raise (AttributeError
      "Page infobox has no birth information (at least none in xxxx-xx-xx format)"),
     [Print ("Welcome to the Wikipedia chatbot!" ++ nl)%string;
      Print ""; Prompt "Your query? ";
      Search "ada lovelace"; Fetch "ada lovelace"]).
Proof. split; reflexivity. Qed.

(** The movement lookup is the one that answers with its error text, and
    the conversation goes on. *)
Example movement_failure_is_answered :
  query_loop match_ (pa_list bare_world)
             ["what is the movement of picasso"; "bye"] []
  = (Ret tt,
     [Print ("Welcome to the Wikipedia chatbot!" ++ nl)%string;
      Print ""; Prompt "Your query? ";
      Search "picasso"; Fetch "picasso";
      Print "Page infobox has no artistic movement information";
      Print ""; Prompt "Your query? ";
      Print (nl ++ "So long!" ++ nl)%string]).
Proof. reflexivity. Qed.

(** A page without an infobox ends the conversation for every lookup, the
    movement lookup included. *)
Example no_infobox_escapes (more : list string) :
  query_loop match_
    (pa_list {| wikipedia_search := fun title => Ret [title];
                WikipediaPage_html := fun page => Ret page;
                infobox_texts := fun _ => [];
                re_search := fun _ _ text => Some text |})
    ("what is the movement of picasso" :: more) []
  = (Raise (LookupError "Page has no infobox"),
     [Print ("Welcome to the Wikipedia chatbot!" ++ nl)%string;
      Print ""; Prompt "Your query? "; Search "picasso"; Fetch "picasso"]).
Proof. reflexivity. Qed.

(** C3. Four of the six lookups are asked about the first captured word
    only: the words after it do not reach [get_university_motto],
    [get_polar_radius], [get_painter_movement] or [get_artist_genre].  Asked
    for the motto of [harvard university], the program searches for
    [harvard]. *)
Theorem first_word_only (w : World) (m0 : string) (rest : list string) :
  university_motto w (m0 :: rest)
  = (a <- get_university_motto w m0 ;; ret (PyList [a])) /\
  polar_radius w (m0 :: rest)
  = (a <- get_polar_radius w m0 ;; ret (PyList [a])) /\
  painter_movement w (m0 :: rest)
  = (a <- get_painter_movement w m0 ;; ret (PyList [a])) /\
  artist_genre w (m0 :: rest)
  = (a <- get_artist_genre w m0 ;; ret (PyList [a])) /\
  match_ ["what"; "is"; "the"; "motto"; "of"; "%"]
         ["what"; "is"; "the"; "motto"; "of"; "harvard"; "university"]
  = Some ["harvard"; "university"] /\
  search_pa_list match_ (pa_list echo_world)
                 ["what"; "is"; "the"; "motto"; "of"; "harvard"; "university"] []
  = (Ret ["harvard"], [Search "harvard"; Fetch "harvard"]).
Proof. repeat split. Qed.

(** The birth date and the notable work are asked about all captured words,
    joined by spaces. *)
Example joined_lookups (w : World) (matches : list string) :
  birth_date w matches
  = (a <- get_birth_date w (String.concat " " matches) ;; ret (PyList [a])) /\
  notable_work w matches
  = (a <- get_notable_work w (String.concat " " matches) ;; ret (PyList [a])) /\
  search_pa_list match_ (pa_list echo_world)
                 ["what"; "is"; "one"; "work"; "from"; "pablo"; "picasso"] []
  = (Ret ["pablo picasso"], [Search "pablo picasso"; Fetch "pablo picasso"]).
Proof. repeat split. Qed.

(** C6. With the entry [(["bye"], bye_action)] registered, alone or as the
    last entry of [pa_list], the source [bye] ends in the raised
    [KeyboardInterrupt], with nothing added to the trace, and the source
    [goodbye] is answered by "I don't understand".  In the query loop the
    line [bye] prints no answer and leaves the loop through its farewell,
    whatever lines are still waiting. *)
Theorem bye_terminates (w : World) (t : trace) (more : list string) :
  search_pa_list match_ [(["bye"], bye_action)] ["bye"] t
  = (Raise KeyboardInterrupt, t) /\
  search_pa_list match_ [(["bye"], bye_action)] ["goodbye"] t
  = (Ret ["I don't understand"], t) /\
  search_pa_list match_ (pa_list w) ["bye"] t = (Raise KeyboardInterrupt, t) /\
  search_pa_list match_ (pa_list w) ["goodbye"] t
  = (Ret ["I don't understand"], t) /\
  query_loop match_ (pa_list w) ("bye" :: more) []
  = (Ret tt,
     [Print ("Welcome to the Wikipedia chatbot!" ++ nl)%string;
      Print ""; Prompt "Your query? ";
      Print (nl ++ "So long!" ++ nl)%string]).
Proof. repeat split. Qed.

End DispatchFacts.

(** * Properties of the text functions *)

Module TextFacts.
Import Py A10 Text.

Lemma all_chars_map p f : forall s,
  all_chars p (map_chars f s) = all_chars (fun c => p (f c)) s.
Proof. induction s as [|c s IH]; simpl; [reflexivity | now rewrite IH]. Qed.

Lemma all_chars_true p : (forall c, p c = true) -> forall s, all_chars p s = true.
Proof. intros Hp. induction s as [|c s IH]; simpl; [reflexivity | now rewrite Hp]. Qed.

Lemma all_chars_app p : forall s1 s2,
  all_chars p (s1 ++ s2)%string = all_chars p s1 && all_chars p s2.
Proof.
  induction s1 as [|c s1 IH]; intros s2; simpl; [reflexivity|].
  now rewrite IH, andb_assoc.
Qed.

Lemma all_chars_weaken (p q : ascii -> bool) :
  (forall c, p c = true -> q c = true) ->
  forall s, all_chars p s = true -> all_chars q s = true.
Proof.
  intros Hpq. induction s as [|c s IH]; simpl; [reflexivity|].
  intros H. apply andb_prop in H as [Hc Hs]. now rewrite (Hpq c Hc), IH.
Qed.

Lemma no_run_step c a b s :
  no_run c (String a (String b s))
  = negb (Ascii.eqb a c && Ascii.eqb b c) && no_run c (String b s).
Proof. reflexivity. Qed.

Lemma squeeze_step c a b s :
  squeeze c (String a (String b s))
  = if Ascii.eqb a c && Ascii.eqb b c then squeeze c (String b s)
    else String a (squeeze c (String b s)).
Proof. reflexivity. Qed.

(** [squeeze] keeps the first character. *)
Lemma squeeze_head c a s : exists r, squeeze c (String a s) = String a r.
Proof.
  revert a. induction s as [|b s IH]; intros a; simpl; [eauto|].
  destruct (Ascii.eqb a c && Ascii.eqb b c) eqn:E; [|eauto].
  apply andb_prop in E as [Ea Eb].
  apply Ascii.eqb_eq in Ea, Eb. subst a b. apply IH.
Qed.

Lemma squeeze_all_chars p c : forall s,
  all_chars p s = true -> all_chars p (squeeze c s) = true.
Proof.
  induction s as [|a s IH]; [reflexivity|]. intros H.
  simpl in H. apply andb_prop in H as [Ha Hs].
  destruct s as [|b s]; [simpl; now rewrite Ha|].
  rewrite squeeze_step.
  destruct (Ascii.eqb a c && Ascii.eqb b c); [now apply IH|].
  cbn [all_chars]. now rewrite Ha, (IH Hs).
Qed.

Lemma squeeze_no_run c : forall s, no_run c (squeeze c s) = true.
Proof.
  induction s as [|a s IH]; [reflexivity|].
  destruct s as [|b s]; [reflexivity|].
  rewrite squeeze_step.
  destruct (Ascii.eqb a c && Ascii.eqb b c) eqn:E; [exact IH|].
  destruct (squeeze_head c b s) as [r Hr]. rewrite Hr in *.
  rewrite no_run_step. now rewrite E, IH.
Qed.

Lemma squeeze_keeps_no_run c d : forall s,
  no_run c s = true -> no_run c (squeeze d s) = true.
Proof.
  induction s as [|a s IH]; [reflexivity|].
  destruct s as [|b s]; [reflexivity|]. intros H.
  rewrite no_run_step in H. apply andb_prop in H as [Hab Hs].
  rewrite squeeze_step.
  destruct (Ascii.eqb a d && Ascii.eqb b d); [now apply IH|].
  specialize (IH Hs).
  destruct (squeeze_head d b s) as [r Hr]. rewrite Hr in *.
  rewrite no_run_step. now rewrite Hab, IH.
Qed.

Lemma squeeze_fixed c : forall s, no_run c s = true -> squeeze c s = s.
Proof.
  induction s as [|a s IH]; [reflexivity|].
  destruct s as [|b s]; [reflexivity|]. intros H.
  rewrite no_run_step in H. apply andb_prop in H as [Hab Hs].
  rewrite squeeze_step.
  apply negb_true_iff in Hab. rewrite Hab. now rewrite (IH Hs).
Qed.

Lemma squeeze_length c : forall s,
  String.length (squeeze c s) <= String.length s.
Proof.
  induction s as [|a s IH]; [reflexivity|].
  destruct s as [|b s]; [reflexivity|].
  rewrite squeeze_step.
  destruct (Ascii.eqb a c && Ascii.eqb b c); simpl in *; lia.
Qed.

Lemma map_chars_length f : forall s,
  String.length (map_chars f s) = String.length s.
Proof. induction s as [|c s IH]; simpl; [reflexivity | now rewrite IH]. Qed.

Lemma map_chars_fixed (f : ascii -> ascii) (p : ascii -> bool) :
  (forall c, p c = true -> f c = c) ->
  forall s, all_chars p s = true -> map_chars f s = s.
Proof.
  intros Hf. induction s as [|c s IH]; simpl; [reflexivity|].
  intros H. apply andb_prop in H as [Hc Hs]. now rewrite (Hf c Hc), IH.
Qed.

(** The three properties of a text [clean_text] has nothing to do on. *)
Lemma clean_text_props (text : string) :
  all_chars printable (clean_text text) = true /\
  no_run " "%char (clean_text text) = true /\
  no_run "010"%char (clean_text text) = true.
Proof.
  unfold clean_text. repeat split.
  - do 2 apply squeeze_all_chars. rewrite all_chars_map.
    apply all_chars_true. intros c. now destruct (printable c) eqn:E.
  - apply squeeze_keeps_no_run, squeeze_no_run.
  - apply squeeze_no_run.
Qed.

Lemma clean_text_fixed (text : string) :
  all_chars printable text = true ->
  no_run " "%char text = true ->
  no_run "010"%char text = true ->
  clean_text text = text.
Proof.
  intros Hp Hs Hn. unfold clean_text.
  rewrite (map_chars_fixed _ printable); [| |assumption].
  - now rewrite (squeeze_fixed _ _ Hs), (squeeze_fixed _ _ Hn).
  - intros c Hc. now rewrite Hc.
Qed.

(** X1. The text [clean_text] returns consists of characters of
    [string.printable] only. *)
Theorem clean_text_printable (text : string) :
  all_chars printable (clean_text text) = true.
Proof. apply clean_text_props. Qed.

(** X2. The text [clean_text] returns has no two spaces in a row and no two
    newlines in a row: squeezing the newlines does not bring spaces
    together again. *)
Theorem clean_text_no_runs (text : string) :
  no_run " "%char (clean_text text) = true /\
  no_run "010"%char (clean_text text) = true.
Proof. split; apply clean_text_props. Qed.

(** X3. [clean_text] leaves a text as it is exactly when the text is
    printable and has neither a run of spaces nor a run of newlines. *)
Theorem clean_text_fixed_points (text : string) :
  clean_text text = text <->
  all_chars printable text = true /\
  no_run " "%char text = true /\ no_run "010"%char text = true.
Proof.
  split.
  - intros <-. apply clean_text_props.
  - intros (Hp & Hs & Hn). now apply clean_text_fixed.
Qed.

(** X4. Cleaning a text twice is cleaning it once. *)
Theorem clean_text_idempotent (text : string) :
  clean_text (clean_text text) = clean_text text.
Proof.
  destruct (clean_text_props text) as (Hp & Hs & Hn).
  now apply clean_text_fixed.
Qed.

(** X5. [clean_text] never makes a text longer. *)
Theorem clean_text_never_longer (text : string) :
  String.length (clean_text text) <= String.length text.
Proof.
  unfold clean_text.
  etransitivity; [apply squeeze_length|].
  etransitivity; [apply squeeze_length|].
  now rewrite map_chars_length.
Qed.

Example clean_text_sample :
  clean_text ("Born" ++ String (ascii_of_nat 160) "" ++ "  1815"
              ++ nl ++ nl ++ "London")%string
  = ("Born 1815" ++ nl ++ "London")%string.
Proof. reflexivity. Qed.

(** ** The words of a query *)

Ltac each_ascii c := destruct c as [[] [] [] [] [] [] [] []].

Lemma lower_char_query (c : ascii) :
  Ascii.eqb c "?"%char
  || (negb (Ascii.eqb (lower_char c) "?"%char) && negb (is_upper (lower_char c)))
  = true.
Proof. each_ascii c; reflexivity. Qed.

Lemma lower_char_idem (c : ascii) : lower_char (lower_char c) = lower_char c.
Proof. each_ascii c; reflexivity. Qed.

Lemma lower_char_question (c : ascii) :
  Ascii.eqb (lower_char c) "?"%char = Ascii.eqb c "?"%char.
Proof. each_ascii c; reflexivity. Qed.

Lemma replace_removes old : forall s,
  all_chars (fun c => negb (Ascii.eqb c old)) (replace old "" s) = true.
Proof.
  induction s as [|c s IH]; simpl; [reflexivity|].
  destruct (Ascii.eqb c old) eqn:E; simpl; [exact IH | now rewrite E].
Qed.

Lemma replace_absent old : forall s,
  all_chars (fun c => negb (Ascii.eqb c old)) s = true -> replace old "" s = s.
Proof.
  induction s as [|c s IH]; simpl; [reflexivity|]. intros H.
  apply andb_prop in H as [Hc Hs]. apply negb_true_iff in Hc.
  now rewrite Hc, IH.
Qed.

Lemma replace_lower : forall s,
  replace "?"%char "" (lower s) = lower (replace "?"%char "" s).
Proof.
  induction s as [|c s IH]; [reflexivity|].
  unfold lower in *. simpl. rewrite lower_char_question.
  destruct (Ascii.eqb c "?"%char); simpl; now rewrite IH.
Qed.

Lemma lower_idem : forall s, lower (lower s) = lower s.
Proof.
  unfold lower. induction s as [|c s IH]; simpl; [reflexivity|].
  now rewrite lower_char_idem, IH.
Qed.

Lemma is_empty_false_iff (s : string) : is_empty s = false <-> s <> ""%string.
Proof. destruct s; simpl; split; congruence. Qed.

(** The words [split_from] produces are not empty and contain no
    whitespace; whatever else holds of every character of the input holds
    of every character of the words. *)
Lemma split_from_words (p : ascii -> bool) : forall s word,
  all_chars p s = true ->
  all_chars (fun c => p c && not_space c) word = true ->
  Forall (fun x => x <> ""%string /\
                   all_chars (fun c => p c && not_space c) x = true)
         (split_from word s).
Proof.
  induction s as [|c s IH]; intros word Hs Hw; simpl.
  - destruct (is_empty word) eqn:E; constructor; [|constructor].
    split; [now apply is_empty_false_iff | assumption].
  - simpl in Hs. apply andb_prop in Hs as [Hc Hs].
    destruct (is_space c) eqn:Ec.
    + destruct (is_empty word) eqn:E; [now apply IH|].
      constructor; [|now apply IH].
      split; [now apply is_empty_false_iff | assumption].
    + apply IH; [assumption|].
      rewrite all_chars_app, Hw. simpl. unfold not_space.
      now rewrite Hc, Ec.
Qed.

Lemma append_assoc (a b c : string) :
  ((a ++ b) ++ c = a ++ (b ++ c))%string.
Proof. induction a as [|x a IH]; simpl; [reflexivity | now rewrite IH]. Qed.

Lemma append_empty_r (a : string) : (a ++ "" = a)%string.
Proof. induction a as [|x a IH]; simpl; [reflexivity | now rewrite IH]. Qed.

(** Characters that are not whitespace are gathered into the word. *)
Lemma split_from_word : forall x word s,
  all_chars not_space x = true ->
  split_from word (x ++ s)%string = split_from (word ++ x)%string s.
Proof.
  induction x as [|c x IH]; intros word s H; simpl.
  - now rewrite append_empty_r.
  - simpl in H. apply andb_prop in H as [Hc Hx].
    unfold not_space in Hc. apply negb_true_iff in Hc. rewrite Hc.
    rewrite (IH _ _ Hx), append_assoc. reflexivity.
Qed.

Lemma split_join : forall words,
  Forall (fun x => x <> ""%string /\ all_chars not_space x = true) words ->
  split (String.concat " " words) = words.
Proof.
  unfold split. induction 1 as [|x words [Hne Hx] Hall IH]; [reflexivity|].
  apply is_empty_false_iff in Hne.
  destruct words as [|y words].
  - simpl. rewrite <- (append_empty_r x) at 1.
    rewrite (split_from_word x "" "" Hx). simpl. now rewrite Hne.
  - change (String.concat " " (x :: y :: words))
      with (x ++ " " ++ String.concat " " (y :: words))%string.
    rewrite (split_from_word x "" _ Hx). simpl append at 1.
    change (" " ++ String.concat " " (y :: words))%string
      with (String " "%char (String.concat " " (y :: words))).
    cbn [split_from]. change (is_space " "%char) with true. cbv iota.
    now rewrite Hne, IH.
Qed.

Lemma query_words_words (line : string) :
  Forall (fun x => x <> ""%string /\ all_chars query_char x = true)
         (query_words line).
Proof.
  unfold query_words, split.
  apply (split_from_words
           (fun c => negb (Ascii.eqb c "?"%char) && negb (is_upper c)));
    [|reflexivity].
  unfold lower. rewrite all_chars_map.
  apply (all_chars_weaken (fun c => negb (Ascii.eqb c "?"%char)));
    [|apply replace_removes].
  intros c Hc. apply negb_true_iff in Hc.
  pose proof (lower_char_query c) as H. now rewrite Hc in H.
Qed.

(** X6. The words [query_loop] hands to the dispatcher are never empty and
    contain no whitespace, no question mark and no ASCII capital letter. *)
Theorem query_words_normalized (line : string) :
  Forall (fun x => x <> ""%string /\ all_chars query_char x = true)
         (query_words line).
Proof. apply query_words_words. Qed.

(** X7. Joining words by single spaces and splitting the result gives the
    words back, when none of them is empty or contains whitespace: the
    title [birth_date] and [notable_work] look up still holds every
    captured word. *)
Theorem split_join_roundtrip (words : list string) :
  Forall (fun x => x <> ""%string /\ all_chars not_space x = true) words ->
  split (String.concat " " words) = words.
Proof. apply split_join. Qed.

Lemma split_join_roundtrip_witness :
  split (String.concat " " ["leonardo"; "da"; "vinci"])
  = ["leonardo"; "da"; "vinci"].
Proof.
  apply (split_join_roundtrip ["leonardo"; "da"; "vinci"]).
  repeat constructor; discriminate.
Defined.

Lemma all_chars_concat (p : ascii -> bool) (sep : string) : forall words,
  all_chars p sep = true ->
  Forall (fun x => all_chars p x = true) words ->
  all_chars p (String.concat sep words) = true.
Proof.
  intros words Hsep. induction 1 as [|x words Hx Hall IH]; [reflexivity|].
  destruct words as [|y words]; [exact Hx|].
  change (String.concat sep (x :: y :: words))
    with (x ++ sep ++ String.concat sep (y :: words))%string.
  now rewrite !all_chars_app, Hx, Hsep, IH.
Qed.

Lemma lower_fixed : forall s,
  all_chars (fun c => negb (is_upper c)) s = true -> lower s = s.
Proof.
  apply map_chars_fixed. intros c Hc. apply negb_true_iff in Hc.
  unfold lower_char. unfold is_upper in Hc. now rewrite Hc.
Qed.

(** X17. The words of a line are in normal form: joined by spaces and read
    as a line again, they come back unchanged. *)
Theorem query_words_stable (line : string) :
  query_words (String.concat " " (query_words line)) = query_words line.
Proof.
  pose proof (query_words_words line) as Hall.
  set (words := query_words line) in *.
  unfold query_words at 1.
  assert (Hq : all_chars (fun c => negb (Ascii.eqb c "?"%char) && negb (is_upper c))
                 (String.concat " " words) = true).
  { apply all_chars_concat; [reflexivity|].
    eapply Forall_impl; [|exact Hall]. intros x [_ Hx]. revert Hx.
    apply all_chars_weaken. intros c Hc. unfold query_char in Hc.
    now apply andb_prop in Hc as [Hc _]. }
  rewrite replace_absent, lower_fixed.
  - apply split_join. eapply Forall_impl; [|exact Hall].
    intros x [Hne Hx]. split; [assumption|]. revert Hx.
    apply all_chars_weaken. intros c Hc. unfold query_char in Hc.
    now apply andb_prop in Hc as [_ Hc].
  - revert Hq. apply all_chars_weaken. intros c Hc.
    now apply andb_prop in Hc as [_ Hc].
  - revert Hq. apply all_chars_weaken. intros c Hc.
    now apply andb_prop in Hc as [Hc _].
Qed.

End TextFacts.

(** * Properties of a turn and of the query loop *)

Module LoopFacts.
Import Matcher Py A10 Scenarios Text Turn.
Local Open Scope py_scope.

(** ** The requests of a turn *)

Lemma bind_quiet {A B} (m : M A) (k : A -> M B) t :
  (forall a, quiet (k a)) -> snd (bind m k t) = snd (m t).
Proof.
  intros Hk. unfold bind. destruct (m t) as [[a|e] t1]; [apply Hk | reflexivity].
Qed.

Lemma ret_quiet {A} (a : A) : quiet (ret a).
Proof. intros t. reflexivity. Qed.

Lemma get_match_quiet w text pattern error_text :
  quiet (get_match w text pattern error_text).
Proof. intros t. unfold get_match. now destruct (re_search _ _ _ _). Qed.

Lemma get_first_infobox_text_quiet w html : quiet (get_first_infobox_text w html).
Proof. intros t. unfold get_first_infobox_text. now destruct (infobox_texts _ _). Qed.

Lemma infobox_of_trace w title t :
  snd (infobox_of w title t) = snd (get_page_html w title t).
Proof.
  unfold infobox_of. apply bind_quiet. intros html t1.
  rewrite bind_quiet; [apply get_first_infobox_text_quiet|].
  intros box. apply ret_quiet.
Qed.

Lemma get_page_html_requests w title t :
  requests w t (snd (get_page_html w title t)).
Proof.
  unfold get_page_html, bind, emit, lift. simpl.
  destruct (wikipedia_search w title) as [[|page others]|e] eqn:E; simpl.
  - apply requests_search. now left.
  - rewrite <- app_assoc.
    destruct (WikipediaPage_html w page); simpl;
      now apply requests_fetch with (others := others).
  - apply requests_search. right. eauto.
Qed.

(** A lookup asks for one page and works on what it gets. *)
Lemma lookup_requests w (k : string -> M string) title t :
  (forall text, quiet (k text)) ->
  requests w t (snd ((a <- (text <- infobox_of w title ;; k text) ;;
                      ret (PyList [a])) t)).
Proof.
  intros Hk. rewrite bind_quiet by (intros a; apply ret_quiet).
  rewrite bind_quiet by assumption.
  rewrite infobox_of_trace. apply get_page_html_requests.
Qed.

Lemma registered_requests (w : World) pat (act : Action) :
  In (pat, act) (pa_list w) ->
  forall mat t, requests w t (snd (act mat t)).
Proof.
  intros Hin mat t. unfold pa_list in Hin.
  repeat (destruct Hin as [[= _ <-] | Hin]); try contradiction.
  - apply lookup_requests. intros text. apply get_match_quiet.
  - destruct mat as [|m0 ms]; [apply requests_none|].
    apply lookup_requests. intros text. apply get_match_quiet.
  - destruct mat as [|m0 ms]; [apply requests_none|].
    apply (lookup_requests w
             (fun text => match re_search w false _ text with
                          | Some m => ret (strip m)
                          | None => ret _
                          end)).
    intros text t1. now destruct (re_search _ _ _ _).
  - destruct mat as [|m0 ms]; [apply requests_none|].
    apply lookup_requests. intros text. apply get_match_quiet.
  - destruct mat as [|m0 ms]; [apply requests_none|].
    apply lookup_requests. intros text. apply get_match_quiet.
  - apply lookup_requests. intros text. apply get_match_quiet.
  - apply requests_none.
Qed.

(** What the dispatcher does is what one action does, or nothing. *)
Lemma search_cases matcher (src : list string) : forall registry t,
  search_pa_list matcher registry src t = (Ret ["I don't understand"], t) \/
  exists pat (act : Action) mat,
    In (pat, act) registry /\ matcher pat src = Some mat /\
    search_pa_list matcher registry src t
    = (answer <- act mat ;; ret (or_no_answers answer)) t.
Proof.
  induction registry as [|[p a] registry IH]; intros t; simpl; [now left|].
  destruct (matcher p src) as [mat|] eqn:E.
  - right. exists p, a, mat.
    split; [now left | split; [assumption | reflexivity]].
  - destruct (IH t) as [H | (pat & act & mat & Hin & Hm & H)]; [now left|].
    right. exists pat, act, mat. split; [now right | split; assumption].
Qed.

(** X8. A turn over [pa_list] asks Wikipedia for nothing, or for one search
    that finds nothing or fails, or for one search and then the page of the
    first title found: never more than one search and one page, and never a
    page other than the first hit. *)
Theorem turn_requests matcher (w : World) (src : list string) (t : trace) :
  requests w t (snd (search_pa_list matcher (pa_list w) src t)).
Proof.
  destruct (search_cases matcher src (pa_list w) t)
    as [H | (pat & act & mat & Hin & _ & H)]; rewrite H.
  - apply requests_none.
  - rewrite bind_quiet by (intros a; apply ret_quiet).
    now apply registered_requests with (pat := pat).
Qed.

(** ** The exceptions of a turn *)

Lemma bind_ret_raise {A B} (m : M A) (f : A -> B) t e t' :
  (a <- m ;; ret (f a)) t = (Raise e, t') -> m t = (Raise e, t').
Proof.
  unfold bind, ret. destruct (m t) as [[a|e0] t1]; simpl;
    [discriminate | now intros [= <- <-]].
Qed.

Lemma get_page_html_error w title t e t' :
  get_page_html w title t = (Raise e, t') -> turn_error w e.
Proof.
  unfold get_page_html, bind, emit, lift. simpl.
  destruct (wikipedia_search w title) as [[|page others]|e0] eqn:E; simpl.
  - intros [= <- _]. apply error_index.
  - destruct (WikipediaPage_html w page) as [html|e1] eqn:E1; [discriminate|].
    intros [= <- _]. now apply error_page with (page := page).
  - intros [= <- _]. now apply error_search with (title := title).
Qed.

Lemma infobox_of_error w title t e t' :
  infobox_of w title t = (Raise e, t') -> turn_error w e.
Proof.
  unfold infobox_of, bind.
  destruct (get_page_html w title t) as [[html|e0] t1] eqn:E.
  - unfold get_first_infobox_text.
    destruct (infobox_texts w html); [|discriminate].
    intros [= <- _]. apply error_infobox.
  - intros [= <- _]. now apply get_page_html_error in E.
Qed.

Lemma lookup_error w title pattern msg t e t' :
  In msg lookup_error_texts ->
  (text <- infobox_of w title ;; get_match w text pattern msg) t = (Raise e, t') ->
  turn_error w e.
Proof.
  intros Hmsg. unfold bind.
  destruct (infobox_of w title t) as [[text|e0] t1] eqn:E.
  - unfold get_match. destruct (re_search w true pattern text); [discriminate|].
    intros [= <- _]. now apply error_fact.
  - intros [= <- _]. now apply infobox_of_error in E.
Qed.

Lemma get_painter_movement_error w name t e t' :
  get_painter_movement w name t = (Raise e, t') -> turn_error w e.
Proof.
  unfold get_painter_movement, bind.
  destruct (infobox_of w name t) as [[text|e0] t1] eqn:E.
  - destruct (re_search w false _ text); discriminate.
  - intros [= <- _]. now apply infobox_of_error in E.
Qed.

Lemma registered_errors (w : World) pat (act : Action) :
  In (pat, act) (pa_list w) ->
  forall mat t e t', act mat t = (Raise e, t') -> turn_error w e.
Proof.
  intros Hin mat t e t' H. unfold pa_list in Hin.
  repeat (destruct Hin as [[= _ <-] | Hin]); try contradiction.
  - apply bind_ret_raise in H. revert H. apply lookup_error. simpl; tauto.
  - destruct mat as [|m0 ms]; [injection H as <- _; apply error_index|].
    apply bind_ret_raise in H. revert H. apply lookup_error. simpl; tauto.
  - destruct mat as [|m0 ms]; [injection H as <- _; apply error_index|].
    apply bind_ret_raise in H. now apply get_painter_movement_error in H.
  - destruct mat as [|m0 ms]; [injection H as <- _; apply error_index|].
    apply bind_ret_raise in H. revert H. apply lookup_error. simpl; tauto.
  - destruct mat as [|m0 ms]; [injection H as <- _; apply error_index|].
    apply bind_ret_raise in H. revert H. apply lookup_error. simpl; tauto.
  - apply bind_ret_raise in H. revert H. apply lookup_error. simpl; tauto.
  - injection H as <- _. apply error_bye.
Qed.

Lemma search_error matcher (w : World) src t e t' :
  search_pa_list matcher (pa_list w) src t = (Raise e, t') -> turn_error w e.
Proof.
  intros H.
  destruct (search_cases matcher src (pa_list w) t)
    as [H0 | (pat & act & mat & Hin & _ & H0)]; rewrite H0 in H;
    [discriminate|].
  apply bind_ret_raise in H. now apply (registered_errors w pat act Hin) in H.
Qed.

(** X9. A turn over [pa_list] that raises, raises one of: the
    [KeyboardInterrupt] of [bye_action]; [IndexError] (no title found, or an
    empty capture); [LookupError] for a page without infobox;
    [AttributeError] with the error text of one of the five lookups that go
    through [get_match]; or what [wikipedia.search] or the page fetch
    raised. *)
Theorem turn_errors matcher (w : World) src t e t' :
  search_pa_list matcher (pa_list w) src t = (Raise e, t') -> turn_error w e.
Proof. apply search_error. Qed.

Lemma turn_errors_witness :
  turn_error bare_world
    (AttributeError "Page infobox has no genre information").
Proof.
  apply (turn_errors match_ bare_world ["what"; "genre"; "is"; "rihanna"] []
           (AttributeError "Page infobox has no genre information")
           [Search "rihanna"; Fetch "rihanna"]).
  reflexivity.
Defined.

(** ** The query loop *)

Section AnyRegistry.

Variable matcher : Pattern -> list string -> option (list string).
Variable registry : list (Pattern * Action).

(** An exception that leaves the turns was raised by the dispatcher on one
    of the lines, and is not one the loop catches. *)
Lemma query_turns_error : forall inputs t e t',
  query_turns matcher registry inputs t = (Some e, t') ->
  e <> KeyboardInterrupt /\ e <> EOFError /\
  exists line t0,
    In line inputs /\
    search_pa_list matcher registry (query_words line) t0 = (Raise e, t').
Proof.
  induction inputs as [|line more IH]; intros t e t' H; [discriminate|].
  cbn [query_turns] in H.
  change (split (lower (replace "?"%char "" line))) with (query_words line) in H.
  destruct (search_pa_list matcher registry (query_words line)
              (t ++ [Print ""; Prompt "Your query? "]))
    as [[answers|e0] t1] eqn:E.
  - apply IH in H as (H1 & H2 & line' & t0 & Hin & H).
    repeat split; auto. exists line', t0. split; [now right | assumption].
  - destruct e0; try discriminate; injection H as <- <-;
      (repeat split; [discriminate | discriminate |]);
      exists line, (t ++ [Print ""; Prompt "Your query? "]);
      (split; [now left | assumption]).
Qed.

(** The turns depend on the lines through their words only. *)
Lemma query_turns_words : forall inputs1 inputs2 t,
  map query_words inputs1 = map query_words inputs2 ->
  query_turns matcher registry inputs1 t = query_turns matcher registry inputs2 t.
Proof.
  induction inputs1 as [|l1 more1 IH]; intros [|l2 more2] t H;
    try discriminate; [reflexivity|].
  injection H as Hw Hmore. cbn [query_turns].
  change (split (lower (replace "?"%char "" l1))) with (query_words l1).
  change (split (lower (replace "?"%char "" l2))) with (query_words l2).
  rewrite Hw.
  destruct (search_pa_list matcher registry (query_words l2) _)
    as [[answers|e] t1]; [|reflexivity].
  now apply IH.
Qed.

Lemma search_returns (src : list string) :
  (forall pat (act : Action), In (pat, act) registry ->
     forall mat t, exists v t', act mat t = (Ret v, t')) ->
  forall t, exists l t', search_pa_list matcher registry src t = (Ret l, t').
Proof.
  intros Hret t.
  destruct (search_cases matcher src registry t)
    as [H | (pat & act & mat & Hin & _ & H)]; rewrite H; [eauto|].
  destruct (Hret pat act Hin mat t) as (v & t' & Hact).
  unfold bind. rewrite Hact. unfold ret. eauto.
Qed.

(** X10. [query_loop] lets neither [KeyboardInterrupt] nor [EOFError] out.
    An exception it does raise was raised by the dispatcher on one of the
    lines read, and the trace is the one that turn left: nothing is printed
    after it, the farewell included. *)
Theorem query_loop_raises (inputs : list string) (t : trace) e t' :
  query_loop matcher registry inputs t = (Raise e, t') ->
  e <> KeyboardInterrupt /\ e <> EOFError /\
  exists line t0,
    In line inputs /\
    search_pa_list matcher registry (query_words line) t0 = (Raise e, t').
Proof.
  unfold query_loop.
  destruct (query_turns matcher registry inputs _) as [[e0|] t1] eqn:E;
    [|discriminate].
  intros [= <- <-]. now apply query_turns_error in E.
Qed.

(** X11. A turn that raises is the last one: the lines after it are never
    read, so the loop ends as if they were not there. *)
Theorem raising_turn_ends_loop (line : string) (more : list string) t e t1 :
  search_pa_list matcher registry (query_words line)
    ((t ++ [Print ("Welcome to the Wikipedia chatbot!" ++ nl)%string])
       ++ [Print ""; Prompt "Your query? "])
  = (Raise e, t1) ->
  query_loop matcher registry (line :: more) t
  = query_loop matcher registry [line] t.
Proof.
  intros H. unfold query_loop. cbn [query_turns].
  change (split (lower (replace "?"%char "" line))) with (query_words line).
  rewrite H. now destruct e.
Qed.

(** X12. When no registered action raises, the loop returns normally,
    whatever the lines of input. *)
Theorem query_loop_returns (inputs : list string) (t : trace) :
  (forall pat (act : Action), In (pat, act) registry ->
     forall mat t0, exists v t', act mat t0 = (Ret v, t')) ->
  exists t', query_loop matcher registry inputs t = (Ret tt, t').
Proof.
  intros Hret.
  assert (Hturns : forall inputs t, exists t',
             query_turns matcher registry inputs t = (None, t')).
  { clear inputs t. induction inputs as [|line more IH]; intros t.
    - simpl. eauto.
    - cbn [query_turns].
      destruct (search_returns (split (lower (replace "?"%char "" line))) Hret
                  (t ++ [Print ""; Prompt "Your query? "])) as (l & t1 & H).
      rewrite H. apply IH. }
  unfold query_loop.
  destruct (Hturns inputs (t ++ [Print ("Welcome to the Wikipedia chatbot!" ++ nl)%string]))
    as (t' & H).
  rewrite H. eauto.
Qed.

(** X13. The loop does not tell capital letters from small ones, nor does
    it see question marks: lowering every line, or removing the question
    marks from every line, changes nothing. *)
Theorem query_loop_case_insensitive (inputs : list string) (t : trace) :
  query_loop matcher registry (map lower inputs) t
  = query_loop matcher registry inputs t /\
  query_loop matcher registry (map (replace "?"%char "") inputs) t
  = query_loop matcher registry inputs t.
Proof.
  unfold query_loop. split.
  - rewrite (query_turns_words (map lower inputs) inputs); [reflexivity|].
    rewrite map_map. apply map_ext. intros line. unfold query_words.
    now rewrite TextFacts.replace_lower, TextFacts.lower_idem.
  - rewrite (query_turns_words (map (replace "?"%char "") inputs) inputs);
      [reflexivity|].
    rewrite map_map. apply map_ext. intros line. unfold query_words.
    now rewrite (TextFacts.replace_absent _ _ (TextFacts.replace_removes _ line)).
Qed.

End AnyRegistry.

Lemma query_loop_raises_witness :
  AttributeError "Page infobox has no motto information" <> KeyboardInterrupt /\
  AttributeError "Page infobox has no motto information" <> EOFError /\
  exists line t0,
    In line ["what is up"; "What is the motto of Harvard?"; "bye"] /\
    search_pa_list match_ (pa_list bare_world) (query_words line) t0
    = (Raise (AttributeError "Page infobox has no motto information"),
       [Print ("Welcome to the Wikipedia chatbot!" ++ nl)%string;
        Print ""; Prompt "Your query? "; Print "I don't understand";
        Print ""; Prompt "Your query? ";
        Search "harvard"; Fetch "harvard"]).
Proof.
  apply (query_loop_raises match_ (pa_list bare_world)
           ["what is up"; "What is the motto of Harvard?"; "bye"] []).
  reflexivity.
Defined.

Lemma raising_turn_ends_loop_witness :
  query_loop match_ (pa_list bare_world)
             ("what genre is rihanna" :: ["when was ada lovelace born"; "bye"]) []
  = query_loop match_ (pa_list bare_world) ["what genre is rihanna"] [].
Proof.
  apply (raising_turn_ends_loop match_ (pa_list bare_world)
           "what genre is rihanna" ["when was ada lovelace born"; "bye"] []
           (AttributeError "Page infobox has no genre information")
           [Print ("Welcome to the Wikipedia chatbot!" ++ nl)%string;
            Print ""; Prompt "Your query? ";
            Search "rihanna"; Fetch "rihanna"]).
  reflexivity.
Defined.

Lemma query_loop_returns_witness :
  exists t', query_loop match_ [(["what"; "%"], named "what"); (["%"], silent)]
                        ["what now"; "hello there"] [] = (Ret tt, t').
Proof.
  apply (query_loop_returns match_
           [(["what"; "%"], named "what"); (["%"], silent)]
           ["what now"; "hello there"] []).
  intros pat act [[= <- <-] | [[= <- <-] | []]] mat t0;
    eexists; eexists; reflexivity.
Defined.

(** X14. The exceptions with which the chatbot itself can end: those of a
    turn over [pa_list], [KeyboardInterrupt] and [EOFError] excepted. *)
Theorem chatbot_errors matcher (w : World) (inputs : list string) t e t' :
  query_loop matcher (pa_list w) inputs t = (Raise e, t') ->
  turn_error w e /\ e <> KeyboardInterrupt /\ e <> EOFError.
Proof.
  unfold query_loop.
  destruct (query_turns matcher (pa_list w) inputs _) as [[e0|] t1] eqn:E;
    [|discriminate].
  intros [= <- <-].
  apply query_turns_error in E as (H1 & H2 & line & t0 & _ & H).
  apply search_error in H. auto.
Qed.

Lemma chatbot_errors_witness :
  turn_error bare_world
    (AttributeError "Page infobox has no polar radius information") /\
  AttributeError "Page infobox has no polar radius information"
  <> KeyboardInterrupt /\
  AttributeError "Page infobox has no polar radius information" <> EOFError.
Proof.
  apply (chatbot_errors match_ bare_world
           ["What is the polar radius of Mars?"] []
           (AttributeError "Page infobox has no polar radius information")
           [Print ("Welcome to the Wikipedia chatbot!" ++ nl)%string;
            Print ""; Prompt "Your query? "; Search "mars"; Fetch "mars"]).
  reflexivity.
Defined.

(** ** Where an answer comes from *)

(** The cleaned infobox a lookup works on is the first infobox of the page
    of the first title the search finds. *)
Lemma infobox_of_returns w title t text t' :
  infobox_of w title t = (Ret text, t') <->
  exists page others html box boxes,
    wikipedia_search w title = Ret (page :: others) /\
    WikipediaPage_html w page = Ret html /\
    infobox_texts w html = box :: boxes /\
    text = clean_text box /\
    t' = t ++ [Search title; Fetch page].
Proof.
  unfold infobox_of, get_page_html, get_first_infobox_text, bind, emit, lift,
    index0, ret, raise.
  split.
  - destruct (wikipedia_search w title) as [[|page others]|e0]; simpl;
      try discriminate.
    destruct (WikipediaPage_html w page) as [html|e1] eqn:Eh; simpl;
      try discriminate.
    destruct (infobox_texts w html) as [|box boxes] eqn:Eb; try discriminate.
    intros [= <- <-]. exists page, others, html, box, boxes.
    rewrite <- app_assoc. auto.
  - intros (page & others & html & box & boxes & -> & Hh & Hb & -> & ->).
    simpl. rewrite Hh. simpl. rewrite Hb. now rewrite <- app_assoc.
Qed.

(** X15. [birth_date] answers exactly when the words of the capture, joined
    by spaces, are a title the search finds something for, the page of the
    first hit has an infobox, and the birth pattern matches the cleaned
    text of the first infobox; the answer is the one date the pattern
    captured, and the turn has cost one search and one fetch. *)
Theorem birth_date_answer (w : World) (matches : list string) t v t' :
  birth_date w matches t = (Ret v, t') <->
  exists page others html box boxes date,
    wikipedia_search w (String.concat " " matches) = Ret (page :: others) /\
    WikipediaPage_html w page = Ret html /\
    infobox_texts w html = box :: boxes /\
    re_search w true "(?:Born\D*)(?P<birth>\d{4}-\d{2}-\d{2})" (clean_text box)
    = Some date /\
    v = PyList [date] /\
    t' = t ++ [Search (String.concat " " matches); Fetch page].
Proof.
  unfold birth_date, get_birth_date, get_match.
  split.
  - unfold bind at 1 2.
    destruct (infobox_of w _ t) as [[text|e0] t1] eqn:E; [|discriminate].
    apply infobox_of_returns in E
      as (page & others & html & box & boxes & Hs & Hh & Hb & -> & ->).
    destruct (re_search w true _ (clean_text box)) as [date|] eqn:Er;
      [|discriminate].
    intros [= <- <-]. exists page, others, html, box, boxes, date. auto 10.
  - intros (page & others & html & box & boxes & date
            & Hs & Hh & Hb & Hr & -> & ->).
    assert (E : infobox_of w (String.concat " " matches) t
                = (Ret (clean_text box),
                   t ++ [Search (String.concat " " matches); Fetch page])).
    { apply infobox_of_returns.
      exists page, others, html, box, boxes. auto. }
    unfold bind at 1 2. rewrite E, Hr. reflexivity.
Qed.

(** ** The movement lookup *)

Lemma lstrip_starts : forall s, starts_with_space (lstrip s) = false.
Proof.
  induction s as [|c s IH]; [reflexivity|]. simpl.
  destruct (is_space c) eqn:E; [assumption | simpl; assumption].
Qed.

Lemma rstrip_starts (s : string) :
  starts_with_space s = false -> starts_with_space (rstrip s) = false.
Proof.
  destruct s as [|c s]; [reflexivity|]. simpl. intros Hc.
  destruct (rstrip s); [now rewrite Hc | assumption].
Qed.

Lemma rstrip_ends : forall s, ends_with_space (rstrip s) = false.
Proof.
  induction s as [|c s IH]; [reflexivity|]. simpl.
  destruct (rstrip s) as [|b r].
  - destruct (is_space c) eqn:E; [reflexivity | simpl; assumption].
  - exact IH.
Qed.

Lemma lstrip_split : forall s,
  exists l, s = (l ++ lstrip s)%string /\ all_chars is_space l = true.
Proof.
  induction s as [|c s (l & Hs & Hl)]; [now exists ""%string|]. simpl.
  destruct (is_space c) eqn:E.
  - exists (String c l). simpl. now rewrite <- Hs, E.
  - now exists ""%string.
Qed.

Lemma rstrip_split : forall s,
  exists r, s = (rstrip s ++ r)%string /\ all_chars is_space r = true.
Proof.
  induction s as [|c s (r & Hs & Hr)]; [now exists ""%string|]. simpl.
  destruct (rstrip s) as [|b r0].
  - simpl in Hs. subst s. destruct (is_space c) eqn:E.
    + exists (String c r). simpl. now rewrite E.
    + now exists r.
  - exists r. simpl. now rewrite Hs at 1.
Qed.

(** [strip] takes whitespace, and nothing else, off both ends. *)
Lemma strip_split (s : string) :
  exists l r,
    s = (l ++ strip s ++ r)%string /\
    all_chars is_space l = true /\ all_chars is_space r = true /\
    starts_with_space (strip s) = false /\ ends_with_space (strip s) = false.
Proof.
  destruct (lstrip_split s) as (l & Hl & Hls).
  destruct (rstrip_split (lstrip s)) as (r & Hr & Hrs).
  exists l, r. unfold strip. repeat split; try assumption.
  - now rewrite <- Hr.
  - apply rstrip_starts, lstrip_starts.
  - apply rstrip_ends.
Qed.

(** X16. Once the infobox is there, the movement lookup never raises.  When
    its pattern, searched without flags, captures a movement in the cleaned
    infobox, the answer is that capture with the whitespace, and nothing
    else, taken off both ends; when the pattern finds nothing, the answer
    is the error text. *)
Theorem movement_lookup_returns (w : World) (name : string) t text t1 :
  infobox_of w name t = (Ret text, t1) ->
  exists a,
    get_painter_movement w name t = (Ret a, t1) /\
    ((exists m l r,
        re_search w false
          "Movement\s*[:\-]?\s*(?P<movement>[^,]+?)(?=\s*(?:Family|Spouses|Known for|Notable work|Signature|Born|Died|Resting place|Education|Years active|Other names|Occupation|Works|$))"
          text = Some m /\
        a = strip m /\ m = (l ++ a ++ r)%string /\
        all_chars is_space l = true /\ all_chars is_space r = true /\
        starts_with_space a = false /\ ends_with_space a = false) \/
     (re_search w false
        "Movement\s*[:\-]?\s*(?P<movement>[^,]+?)(?=\s*(?:Family|Spouses|Known for|Notable work|Signature|Born|Died|Resting place|Education|Years active|Other names|Occupation|Works|$))"
        text = None /\
      a = "Page infobox has no artistic movement information"%string)).
Proof.
  intros E. unfold get_painter_movement, bind. rewrite E.
  destruct (re_search w false _ text) as [m|] eqn:Er.
  - exists (strip m). split; [reflexivity|]. left.
    destruct (strip_split m) as (l & r & Hm & Hl & Hr & Hs & He).
    exists m, l, r. auto 10.
  - eexists. split; [reflexivity|]. right. split; reflexivity.
Qed.

Lemma movement_lookup_returns_witness :
  exists a,
    get_painter_movement echo_world "  Cubism, Surrealism  " []
    = (Ret a, [Search "  Cubism, Surrealism  "; Fetch "  Cubism, Surrealism  "]) /\
    ((exists m l r,
        re_search echo_world false
          "Movement\s*[:\-]?\s*(?P<movement>[^,]+?)(?=\s*(?:Family|Spouses|Known for|Notable work|Signature|Born|Died|Resting place|Education|Years active|Other names|Occupation|Works|$))"
          " Cubism, Surrealism " = Some m /\
        a = strip m /\ m = (l ++ a ++ r)%string /\
        all_chars is_space l = true /\ all_chars is_space r = true /\
        starts_with_space a = false /\ ends_with_space a = false) \/
     (re_search echo_world false
        "Movement\s*[:\-]?\s*(?P<movement>[^,]+?)(?=\s*(?:Family|Spouses|Known for|Notable work|Signature|Born|Died|Resting place|Education|Years active|Other names|Occupation|Works|$))"
        " Cubism, Surrealism " = None /\
      a = "Page infobox has no artistic movement information"%string)).
Proof.
  apply (movement_lookup_returns echo_world "  Cubism, Surrealism  " []
           " Cubism, Surrealism ").
  reflexivity.
Defined.

(** In the world that echoes its text the answer is the capture, stripped;
    where the pattern finds nothing it is the error text. *)
Example movement_answers :
  get_painter_movement echo_world "  Cubism, Surrealism  " []
  = (Ret "Cubism, Surrealism",
     [Search "  Cubism, Surrealism  "; Fetch "  Cubism, Surrealism  "]) /\
  get_painter_movement bare_world "picasso" []
  = (Ret "Page infobox has no artistic movement information",
     [Search "picasso"; Fetch "picasso"]).
Proof. split; reflexivity. Qed.

End LoopFacts.
